(** * tailwind.config.js: the exported configuration object

    The repository's one source file is a CommonJS module whose body is a
    single statement,

<<
    module.exports = {
      content: ["./templates/**/*.html", "./**/templates/**/*.html"],
      theme: { extend: {} },
      plugins: [],
    };
>>

    The statement is embedded as a computation over a store of JavaScript
    objects: every array or object literal allocates a fresh object, a
    property definition updates the object in place, and the assignment
    writes the [exports] property of the module object. *)

From stdpp Require Import gmap strings list fin_maps.

#[local] Set Warnings "-register-all".

(** ** Values and the object store *)

(** Object identities. *)
Abbreviation loc := positive.

(** The values the module handles: strings and references to objects;
    [VUndefined] is what reading an absent property gives. *)
Inductive value : Type :=
  | VUndefined
  | VStr (s : string)
  | VRef (l : loc).

(** An object of the store: an ordinary object with its own properties in
    creation order, or an array with its elements. *)
Inductive cell : Type :=
  | CObj (props : list (string * value))
  | CArr (elems : list value).

(** The errors an evaluation can end in.  [TypeError] is what the language
    raises for a property access on something that is no object;
    [ConfigurationError] is the error kind of the build tool that reads the
    configuration. *)
Inductive error : Type :=
  | TypeError (msg : string)
  | ConfigurationError (msg : string).

(** ** Evaluation: state over the store, with errors *)

Definition M (A : Type) : Type :=
  gmap loc cell → error + (A * gmap loc cell).

Definition ret {A} (a : A) : M A := λ h, inr (a, h).

Definition bind {A B} (m : M A) (k : A → M B) : M B :=
  λ h, match m h with
       | inl e => inl e
       | inr (a, h') => k a h'
       end.

Declare Scope js_scope.
Delimit Scope js_scope with js.
Notation "x <- m ;; k" := (bind m (λ x, k))
  (at level 100, m at next level, right associativity) : js_scope.
Notation "m ;;; k" := (bind m (λ _, k))
  (at level 100, right associativity) : js_scope.
Local Open Scope js_scope.

(** A new object gets an identity that the store does not use yet. *)
Definition alloc (c : cell) : M loc :=
  λ h, let l := fresh (dom h) in inr (l, <[l:=c]> h).

(** Writing property [k] of a property list: an existing key keeps its
    place and takes the new value, a new key goes to the end. *)
Fixpoint put_prop {A} (k : string) (a : A) (ps : list (string * A))
  : list (string * A) :=
  match ps with
  | [] => [(k, a)]
  | (k', a') :: r =>
      if decide (k = k') then (k, a) :: r else (k', a') :: put_prop k a r
  end.

(** Reading property [k] of a property list. *)
Fixpoint find_prop {A} (k : string) (ps : list (string * A)) : option A :=
  match ps with
  | [] => None
  | (k', a) :: r => if decide (k = k') then Some a else find_prop k r
  end.

(** [target.k = v].  The targets of this file are ordinary objects; a
    property assignment on [undefined] raises a [TypeError], and so does,
    in this store, one on anything else that is no ordinary object. *)
Definition set_prop (target : value) (k : string) (v : value) : M unit :=
  λ h, match target with
       | VRef l =>
           match h !! l with
           | Some (CObj ps) => inr (tt, <[l := CObj (put_prop k v ps)]> h)
           | _ => inl (TypeError "not an ordinary object")
           end
       | _ => inl (TypeError "cannot set properties of a non-object")
       end.

(** [target.k]. *)
Definition get_prop (target : value) (k : string) : M value :=
  λ h, match target with
       | VRef l =>
           match h !! l with
           | Some (CObj ps) => inr (default VUndefined (find_prop k ps), h)
           | _ => inl (TypeError "not an ordinary object")
           end
       | _ => inl (TypeError "cannot read properties of a non-object")
       end.

(** Appending an element to an array under construction. *)
Definition push_elem (l : loc) (v : value) : M unit :=
  λ h, match h !! l with
       | Some (CArr vs) => inr (tt, <[l := CArr (vs ++ [v])]> h)
       | _ => inl (TypeError "not an array")
       end.

(** ** Literals *)

(** A string literal. *)
Definition str (s : string) : M value := ret (VStr s).

(** The elements of an array literal, evaluated left to right and appended
    to the array. *)
Fixpoint push_elems (l : loc) (es : list (M value)) : M unit :=
  match es with
  | [] => ret tt
  | e :: r => v <- e;; push_elem l v;;; push_elems l r
  end.

(** [[e1, ..., en]]: a new array, then its elements. *)
Definition arr_lit (es : list (M value)) : M value :=
  l <- alloc (CArr []);; push_elems l es;;; ret (VRef l).

(** The property definitions of an object literal, evaluated in source
    order and defined on the object. *)
Fixpoint define_props (l : loc) (ps : list (string * M value)) : M unit :=
  match ps with
  | [] => ret tt
  | (k, e) :: r => v <- e;; set_prop (VRef l) k v;;; define_props l r
  end.

(** [{k1: e1, ..., kn: en}]: a new object, then its properties. *)
Definition obj_lit (ps : list (string * M value)) : M value :=
  l <- alloc (CObj []);; define_props l ps;;; ret (VRef l).

(** ** The module *)

(** The object literal on the right of the assignment. *)
Definition config_literal : M value :=
  obj_lit
    [ ("content", arr_lit [ str "./templates/**/*.html";
                            str "./**/templates/**/*.html" ]);
      ("theme", obj_lit [ ("extend", obj_lit []) ]);
      ("plugins", arr_lit []) ].

(** The body of the file: [module.exports = { ... };], with [module] the
    module object the loader passes in. *)
Definition module_body (module : value) : M unit :=
  v <- config_literal;; set_prop module "exports" v.

(** Loading the file the CommonJS way: a fresh module object whose
    [exports] is a fresh empty object, the body run on it, and
    [module.exports] handed to the caller. *)
Definition load : M value :=
  e <- alloc (CObj []);;
  m <- alloc (CObj [("exports", VRef e)]);;
  module_body (VRef m);;;
  get_prop (VRef m) "exports".

(** ** Observing a value: its structure, by value *)

(** The tree a value stands for once its references are followed. *)
Inductive tree : Type :=
  | TUndefined
  | TStr (s : string)
  | TArr (elems : list tree)
  | TObj (props : list (string * tree)).

(** Following references to depth [fuel]; [None] when the depth does not
    suffice or a reference dangles. *)
Fixpoint deep_value (fuel : nat) (h : gmap loc cell) (v : value)
  : option tree :=
  match fuel with
  | 0 => None
  | S n =>
      match v with
      | VUndefined => Some TUndefined
      | VStr s => Some (TStr s)
      | VRef l =>
          match h !! l with
          | Some (CArr vs) => TArr <$> mapM (deep_value n h) vs
          | Some (CObj ps) =>
              TObj <$> mapM (λ p, pair p.1 <$> deep_value n h p.2) ps
          | None => None
          end
      end
  end.

(** The configuration, by value. *)
Definition tailwind_config : tree :=
  TObj [ ("content", TArr [ TStr "./templates/**/*.html";
                            TStr "./**/templates/**/*.html" ]);
         ("theme", TObj [ ("extend", TObj []) ]);
         ("plugins", TArr []) ].

(** Running a computation and observing, by value, what it returns. *)
Definition observe (fuel : nat) (m : M value) (h : gmap loc cell)
  : error + option tree :=
  match m h with
  | inl e => inl e
  | inr (v, h') => inr (deep_value fuel h' v)
  end.

(** The depth of a tree: the fuel [deep_value] needs for it. *)
Fixpoint height (t : tree) : nat :=
  match t with
  | TUndefined | TStr _ => 1
  | TArr ts => S (max_list (map height ts))
  | TObj ps => S (max_list (map (λ p, height p.2) ps))
  end.

(** Reading a field of an observed object. *)
Definition field (k : string) (t : tree) : option tree :=
  match t with
  | TObj ps => find_prop k ps
  | _ => None
  end.

(** A value with a finite structure in store [h]: some depth suffices. *)
Definition repr (h : gmap loc cell) (v : value) (t : tree) : Prop :=
  ∃ n, deep_value n h v = Some t.

(** Property lists that agree key by key, value by structure. *)
Definition props_repr (h : gmap loc cell)
    (ps : list (string * value)) (kts : list (string * tree)) : Prop :=
  Forall2 (λ p kt, p.1 = kt.1 ∧ repr h p.2 kt.2) ps kts.

(** ** What a literal builds *)

(** What the evaluation of a literal promises: from every store it
    returns, the store it leaves extends the one it found, and the value
    has the structure [t] in the part of the store that is new. *)
Definition builds (e : M value) (t : tree) : Prop :=
  ∀ h, ∃ v h', e h = inr (v, h') ∧ h ⊆ h' ∧ repr (h' ∖ h) v t.

(** What the property definitions of a literal leave on the object: later
    definitions of a key replace earlier ones. *)
Definition defined_props {A} (kts : list (string * A)) : list (string * A) :=
  foldl (λ acc kt, put_prop kt.1 kt.2 acc) [] kts.

(** Solves inclusions between stores built from differences, deletions
    and insertions, looking at one location at a time. *)
Ltac store_incl :=
  let i := fresh "i" in
  let c := fresh "c" in
  apply map_subseteq_spec; intros i c;
  rewrite ?lookup_delete_Some, ?lookup_difference_Some, ?lookup_insert_Some,
    ?lookup_insert_None;
  intuition (eauto using lookup_weaken, lookup_weaken_None; congruence).

(** * Proofs *)

Example load_from_empty_store :
  observe 3 load ∅ = inr (Some tailwind_config).
Proof. vm_compute. reflexivity. Qed.

Example height_tailwind_config : height tailwind_config = 3.
Proof. reflexivity. Qed.

(** The error path is live: the body run without a module object raises. *)
Example body_without_module :
  module_body VUndefined ∅
  = inl (TypeError "cannot set properties of a non-object").
Proof. vm_compute. reflexivity. Qed.

(** A key defined twice keeps its first place and its last value. *)
Example obj_lit_duplicate_key :
  observe 2 (obj_lit [ ("a", str "1"); ("b", str "2"); ("a", str "3") ]) ∅
  = inr (Some (TObj [ ("a", TStr "3"); ("b", TStr "2") ])).
Proof. vm_compute. reflexivity. Qed.

(** The objects of the store are ordinary, writable objects: a write
    through the loaded reference shows in what is observed. *)
Example loaded_object_is_writable :
  observe 3 (v <- load;; set_prop v "plugins" (VStr "x");;; ret v) ∅
  = inr (Some (TObj [ ("content", TArr [ TStr "./templates/**/*.html";
                                          TStr "./**/templates/**/*.html" ]);
                      ("theme", TObj [ ("extend", TObj []) ]);
                      ("plugins", TStr "x") ])).
Proof. vm_compute. reflexivity. Qed.

(** ** Properties of property lists *)

Lemma find_put_prop {A} k (a : A) ps : find_prop k (put_prop k a ps) = Some a.
Proof.
  induction ps as [|[k' a'] r IH]; simpl.
  - by rewrite decide_True.
  - destruct (decide (k = k')) as [->|Hne]; simpl.
    + by rewrite decide_True.
    + by rewrite decide_False.
Qed.

(** ** The observation and its fuel *)

Lemma deep_value_ref_arr n h l vs :
  h !! l = Some (CArr vs) →
  deep_value (S n) h (VRef l) = TArr <$> mapM (deep_value n h) vs.
Proof. intros Hl. simpl. by rewrite Hl. Qed.

Lemma deep_value_ref_obj n h l ps :
  h !! l = Some (CObj ps) →
  deep_value (S n) h (VRef l)
  = TObj <$> mapM (λ p, pair p.1 <$> deep_value n h p.2) ps.
Proof. intros Hl. simpl. by rewrite Hl. Qed.

(** What [deep_value] gives at one depth and store it gives at every depth
    and store that is at least as large. *)
Lemma deep_value_mono n n' h h' v t :
  n ≤ n' → h ⊆ h' →
  deep_value n h v = Some t → deep_value n' h' v = Some t.
Proof.
  intros Hn Hh. revert n' Hn v t.
  induction n as [|n IH]; intros [|n'] Hn v t Hv; [done|done|lia|].
  destruct v as [| s | l]; [done|done|].
  simpl in Hv. destruct (h !! l) as [[ps|vs]|] eqn:Hl; [| |done].
  - rewrite (deep_value_ref_obj _ _ _ ps) by eauto using lookup_weaken.
    apply fmap_Some in Hv as (kts & Hm & ->). apply fmap_Some.
    exists kts. split; [|done].
    apply mapM_Some. apply mapM_Some in Hm.
    eapply Forall2_impl; [exact Hm|]. intros p kt Hp; simpl in *.
    apply fmap_Some in Hp as (t' & Ht' & ->). apply fmap_Some.
    exists t'. split; [|done]. apply IH; [lia|done].
  - rewrite (deep_value_ref_arr _ _ _ vs) by eauto using lookup_weaken.
    apply fmap_Some in Hv as (ts & Hm & ->). apply fmap_Some.
    exists ts. split; [|done].
    apply mapM_Some. apply mapM_Some in Hm.
    eapply Forall2_impl; [exact Hm|]. intros v' t' Hv'.
    apply IH; [lia|done].
Qed.

Lemma repr_weaken h h' v t : h ⊆ h' → repr h v t → repr h' v t.
Proof. intros Hh [n Hn]. exists n. by eapply deep_value_mono. Qed.

Lemma props_repr_weaken h h' ps kts :
  h ⊆ h' → props_repr h ps kts → props_repr h' ps kts.
Proof.
  intros Hh Hps. eapply Forall2_impl; [exact Hps|].
  intros p kt [? ?]. eauto using repr_weaken.
Qed.

Lemma repr_str h s : repr h (VStr s) (TStr s).
Proof. by exists 1. Qed.

(** Finitely many represented values share one depth. *)
Lemma Forall2_repr_depth h vs ts :
  Forall2 (repr h) vs ts →
  ∃ n, Forall2 (λ v t, deep_value n h v = Some t) vs ts.
Proof.
  induction 1 as [|v t vs ts [n Hn] _ [m Hm]].
  - by exists 0.
  - exists (n `max` m). constructor.
    + eapply deep_value_mono; [| |exact Hn]; [lia|done].
    + eapply Forall2_impl; [exact Hm|]. intros v' t' Hv'.
      eapply deep_value_mono; [| |exact Hv']; [lia|done].
Qed.

Lemma repr_arr h l vs ts :
  h !! l = Some (CArr vs) → Forall2 (repr h) vs ts →
  repr h (VRef l) (TArr ts).
Proof.
  intros Hl [n Hn]%Forall2_repr_depth. exists (S n).
  rewrite (deep_value_ref_arr _ _ _ vs) by done.
  apply fmap_Some. exists ts. split; [|done]. by apply mapM_Some.
Qed.

Lemma props_repr_depth h ps kts :
  props_repr h ps kts →
  ∃ n, Forall2 (λ p kt, pair p.1 <$> deep_value n h p.2 = Some kt) ps kts.
Proof.
  induction 1 as [|[k v] [k' t] ps kts [Hk [n Hn]] _ [m Hm]]; simpl in *.
  - by exists 0.
  - subst k'. exists (n `max` m). constructor; simpl.
    + erewrite deep_value_mono; [done| | |exact Hn]; [lia|done].
    + eapply Forall2_impl; [exact Hm|]. intros p kt Hp.
      apply fmap_Some in Hp as (t' & Ht' & ->).
      erewrite deep_value_mono; [done| | |exact Ht']; [lia|done].
Qed.

Lemma repr_obj h l ps kts :
  h !! l = Some (CObj ps) → props_repr h ps kts →
  repr h (VRef l) (TObj kts).
Proof.
  intros Hl [n Hn]%props_repr_depth. exists (S n).
  rewrite (deep_value_ref_obj _ _ _ ps) by done.
  apply fmap_Some. exists kts. split; [|done]. by apply mapM_Some.
Qed.

(** Only a reference to an object of the store has the structure of an
    object. *)
Lemma repr_obj_lookup h v kts :
  repr h v (TObj kts) → ∃ l, v = VRef l ∧ is_Some (h !! l).
Proof.
  intros [[|n] Hn]; [done|]. destruct v as [| s | l]; [done|done|].
  exists l. split; [done|]. simpl in Hn. by destruct (h !! l).
Qed.

Lemma props_repr_put h k v t ps kts :
  repr h v t → props_repr h ps kts →
  props_repr h (put_prop k v ps) (put_prop k t kts).
Proof.
  intros Hv. induction 1 as [|[k1 v1] [k2 t2] ps kts [? ?] Hps IH];
    simplify_eq/=.
  - by repeat constructor.
  - case_decide; constructor; done.
Qed.

(** The depth of the tree is all the fuel its observation needs. *)
Lemma deep_value_height n h v t :
  deep_value n h v = Some t → deep_value (height t) h v = Some t.
Proof.
  revert v t. induction n as [|n IH]; intros v t Hv; [done|].
  destruct v as [| s | l]; simpl in Hv; simplify_eq; [done|done|].
  destruct (h !! l) as [[ps|vs]|] eqn:Hl; [| |done].
  - apply fmap_Some in Hv as (kts & Hm & ->). apply mapM_Some in Hm.
    simpl height. rewrite (deep_value_ref_obj _ _ _ ps) by done.
    apply fmap_Some. exists kts. split; [|done]. apply mapM_Some.
    clear Hl. induction Hm as [|p kt ps kts Hp _ IHm]; [done|].
    apply fmap_Some in Hp as (t' & Ht' & ->); simpl.
    constructor.
    + apply fmap_Some. exists t'. split; [|done].
      eapply deep_value_mono; [| |exact (IH _ _ Ht')]; [lia|done].
    + eapply Forall2_impl; [exact IHm|]. intros q kt Hq; simpl in Hq.
      apply fmap_Some in Hq as (t'' & Ht'' & ->). apply fmap_Some.
      exists t''. split; [|done].
      eapply deep_value_mono; [| |exact Ht'']; [lia|done].
  - apply fmap_Some in Hv as (ts & Hm & ->). apply mapM_Some in Hm.
    simpl height. rewrite (deep_value_ref_arr _ _ _ vs) by done.
    apply fmap_Some. exists ts. split; [|done]. apply mapM_Some.
    clear Hl. induction Hm as [|v t vs ts Hv _ IHm]; [done|]; simpl.
    constructor.
    + eapply deep_value_mono; [| |exact (IH _ _ Hv)]; [lia|done].
    + eapply Forall2_impl; [exact IHm|]. intros v' t' Hv'.
      eapply deep_value_mono; [| |exact Hv']; [lia|done].
Qed.

Lemma repr_deep_value h v t k :
  repr h v t → deep_value (height t + k) h v = Some t.
Proof.
  intros [n Hn]. eapply deep_value_mono; [| |by eapply deep_value_height];
    [lia|done].
Qed.

(** ** Stores: the part a computation has added *)

Lemma alloc_fresh (h : gmap loc cell) : h !! fresh (dom h) = None.
Proof. apply not_elem_of_dom, is_fresh. Qed.

Lemma builds_str s : builds (str s) (TStr s).
Proof. intros h. exists (VStr s), h. split_and!; [done|done|apply repr_str]. Qed.

(** The loop of an array literal.  [h0] is the store the literal started
    from and [l] the array it allocated there; the elements appended so
    far live in what has been added since, the array itself apart. *)
Lemma push_elems_spec l h0 es ts :
  h0 !! l = None →
  Forall2 builds es ts →
  ∀ h done tdone,
    h0 ⊆ h → h !! l = Some (CArr done) →
    Forall2 (repr (delete l (h ∖ h0))) done tdone →
    ∃ h' done',
      push_elems l es h = inr (tt, h') ∧ h0 ⊆ h' ∧
      h' !! l = Some (CArr done') ∧
      Forall2 (repr (delete l (h' ∖ h0))) done' (tdone ++ ts).
Proof.
  intros Hl0. induction 1 as [|e t es ts He _ IH];
    intros h done tdone Hh Hl Hdone.
  - exists h, done. rewrite app_nil_r. done.
  - destruct (He h) as (v & h1 & Hev & Hh1 & Hv).
    assert (h1 !! l = Some (CArr done)) as Hl1 by eauto using lookup_weaken.
    set (h2 := <[l := CArr (done ++ [v])]> h1).
    destruct (IH h2 (done ++ [v]) (tdone ++ [t])) as (h' & done' & ? & ? & ? & ?).
    + subst h2. apply insert_subseteq_r; [done|]. by etrans.
    + subst h2. apply lookup_insert_eq.
    + apply Forall2_app.
      * eapply Forall2_impl; [exact Hdone|]. intros v' t'.
        apply repr_weaken. subst h2. store_incl.
      * constructor; [|done]. eapply repr_weaken; [|exact Hv].
        subst h2. store_incl.
    + exists h', done'. rewrite <-(assoc_L (++)) in *. split_and!; try done.
      simpl. unfold bind at 1. rewrite Hev.
      unfold bind at 1, push_elem. by rewrite Hl1.
Qed.

Lemma builds_arr_lit es ts :
  Forall2 builds es ts → builds (arr_lit es) (TArr ts).
Proof.
  intros Hes h. pose proof (alloc_fresh h) as Hl.
  set (l := fresh (dom h)) in *.
  destruct (push_elems_spec l h es ts Hl Hes (<[l := CArr []]> h) [] [])
    as (h' & done' & Hrun & Hh' & Hl' & Hdone').
  { by apply insert_subseteq. }
  { apply lookup_insert_eq. }
  { constructor. }
  exists (VRef l), h'. split_and!; [|done|].
  - unfold arr_lit, bind, alloc. fold l. by rewrite Hrun.
  - apply (repr_arr _ _ done').
    + by apply lookup_difference_Some.
    + eapply Forall2_impl; [exact Hdone'|]. intros v t.
      apply repr_weaken, delete_subseteq.
Qed.

(** The loop of an object literal, as [push_elems_spec]. *)
Lemma define_props_spec l h0 ps kts :
  h0 !! l = None →
  Forall2 (λ p kt, p.1 = kt.1 ∧ builds p.2 kt.2) ps kts →
  ∀ h done tdone,
    h0 ⊆ h → h !! l = Some (CObj done) →
    props_repr (delete l (h ∖ h0)) done tdone →
    ∃ h' done',
      define_props l ps h = inr (tt, h') ∧ h0 ⊆ h' ∧
      h' !! l = Some (CObj done') ∧
      props_repr (delete l (h' ∖ h0)) done'
        (foldl (λ acc kt, put_prop kt.1 kt.2 acc) tdone kts).
Proof.
  intros Hl0. induction 1 as [|[k e] [k' t] ps kts [Hk He] _ IH];
    intros h done tdone Hh Hl Hdone; simpl in *.
  - by exists h, done.
  - subst k'. destruct (He h) as (v & h1 & Hev & Hh1 & Hv).
    assert (h1 !! l = Some (CObj done)) as Hl1 by eauto using lookup_weaken.
    set (h2 := <[l := CObj (put_prop k v done)]> h1).
    destruct (IH h2 (put_prop k v done) (put_prop k t tdone))
      as (h' & done' & ? & ? & ? & ?).
    + subst h2. apply insert_subseteq_r; [done|]. by etrans.
    + subst h2. apply lookup_insert_eq.
    + apply props_repr_put.
      * eapply repr_weaken; [|exact Hv]. subst h2. store_incl.
      * eapply props_repr_weaken; [|exact Hdone]. subst h2. store_incl.
    + exists h', done'. split_and!; try done.
      unfold bind at 1. rewrite Hev.
      unfold bind at 1, set_prop. by rewrite Hl1.
Qed.

Lemma builds_obj_lit ps kts :
  Forall2 (λ p kt, p.1 = kt.1 ∧ builds p.2 kt.2) ps kts →
  builds (obj_lit ps) (TObj (defined_props kts)).
Proof.
  intros Hps h. pose proof (alloc_fresh h) as Hl.
  set (l := fresh (dom h)) in *.
  destruct (define_props_spec l h ps kts Hl Hps (<[l := CObj []]> h) [] [])
    as (h' & done' & Hrun & Hh' & Hl' & Hdone').
  { by apply insert_subseteq. }
  { apply lookup_insert_eq. }
  { constructor. }
  exists (VRef l), h'. split_and!; [|done|].
  - unfold obj_lit, bind, alloc. fold l. by rewrite Hrun.
  - apply (repr_obj _ _ done').
    + by apply lookup_difference_Some.
    + eapply props_repr_weaken; [|exact Hdone']. apply delete_subseteq.
Qed.

(** ** The module's literal, its body and its loading *)

Lemma builds_config_literal : builds config_literal tailwind_config.
Proof.
  unfold config_literal.
  change tailwind_config with
    (TObj (defined_props
       [ ("content", TArr [ TStr "./templates/**/*.html";
                            TStr "./**/templates/**/*.html" ]);
         ("theme", TObj (defined_props [ ("extend", TObj (defined_props [])) ]));
         ("plugins", TArr []) ])).
  repeat first
    [ apply builds_obj_lit | apply builds_arr_lit | apply builds_str
    | apply Forall2_nil_2 | apply Forall2_cons_2 | split; [reflexivity|] ].
Qed.

(** The body, run with [module] bound to an object of the store: it ends
    normally, touches no object it found other than [module], and leaves in
    [module.exports] a reference to the configuration, which is made of
    new objects only. *)
Lemma module_body_spec h m mps :
  h !! m = Some (CObj mps) →
  ∃ v h',
    module_body (VRef m) h = inr (tt, h') ∧
    delete m h ⊆ h' ∧
    h' !! m = Some (CObj (put_prop "exports" v mps)) ∧
    repr (h' ∖ h) v tailwind_config.
Proof.
  intros Hm. destruct (builds_config_literal h) as (v & h1 & Hev & Hh1 & Hv).
  assert (h1 !! m = Some (CObj mps)) as Hm1 by eauto using lookup_weaken.
  exists v, (<[m := CObj (put_prop "exports" v mps)]> h1). split_and!.
  - unfold module_body, bind. rewrite Hev. unfold set_prop. by rewrite Hm1.
  - store_incl.
  - apply lookup_insert_eq.
  - eapply repr_weaken; [|exact Hv]. store_incl.
Qed.

(** Loading, from any store: every object that was there is as it was,
    and the caller gets a value with the structure of the configuration,
    made of new objects only. *)
Lemma load_spec h :
  ∃ v h', load h = inr (v, h') ∧ h ⊆ h' ∧ repr (h' ∖ h) v tailwind_config.
Proof.
  pose proof (alloc_fresh h) as He. set (e := fresh (dom h)) in *.
  set (h1 := <[e := CObj []]> h).
  pose proof (alloc_fresh h1) as Hm. set (m := fresh (dom h1)) in *.
  set (h2 := <[m := CObj [("exports", VRef e)]]> h1).
  destruct (module_body_spec h2 m [("exports", VRef e)])
    as (v & h' & Hrun & Hh' & Hm' & Hv).
  { apply lookup_insert_eq. }
  apply lookup_insert_None in Hm as [Hm ?].
  exists v, h'. split_and!.
  - unfold load, bind, alloc. fold e h1 m h2. rewrite Hrun.
    unfold get_prop. rewrite Hm'. by rewrite find_put_prop.
  - etrans; [|exact Hh']. subst h2 h1. store_incl.
  - eapply repr_weaken; [|exact Hv]. subst h2 h1. store_incl.
Qed.

Lemma load_spec_repr h v h' :
  load h = inr (v, h') → repr h' v tailwind_config.
Proof.
  intros Hrun. destruct (load_spec h) as (v' & h'' & Hrun' & _ & Hv).
  rewrite Hrun in Hrun'. simplify_eq.
  eapply repr_weaken; [|exact Hv]. by apply map_subseteq_difference_l.
Qed.

(** Loading never disturbs what was loaded before: a value keeps the
    structure it had. *)
Lemma load_preserves h v h' u t :
  load h = inr (v, h') → repr h u t → repr h' u t.
Proof.
  intros Hrun Hu. destruct (load_spec h) as (v' & h'' & Hrun' & Hh & _).
  rewrite Hrun in Hrun'. simplify_eq. by eapply repr_weaken.
Qed.

(** Observed at any depth from 3 on, a load from any store ends normally
    with the configuration. *)
Lemma load_observe h k :
  observe (3 + k) load h = inr (Some tailwind_config).
Proof.
  destruct (load_spec h) as (v & h' & Hrun & _ & _).
  unfold observe. rewrite Hrun. f_equal.
  by apply (repr_deep_value h' v tailwind_config k), (load_spec_repr h).
Qed.

(** ** The exported object *)

(** C1. Evaluating the module leaves in [module.exports] one object whose
    keys are exactly [content], [theme] and [plugins]: [content] is an
    array all of whose elements are strings, [theme] is an object that has
    a field [extend] which is an object, and [plugins] is an array. *)
Theorem exports_shape (h : gmap loc cell) (k : nat) :
  ∃ content theme extend plugins,
    observe (3 + k) load h
    = inr (Some (TObj [ ("content", TArr content);
                        ("theme", TObj theme);
                        ("plugins", TArr plugins) ])) ∧
    Forall (λ t, ∃ s, t = TStr s) content ∧
    find_prop "extend" theme = Some (TObj extend).
Proof.
  eexists _, _, _, _. split; [apply load_observe|].
  split; [|reflexivity]. repeat constructor; eauto.
Qed.

(** C3. The exported [content] is the array of exactly the two strings
    "./templates/**/*.html" and "./**/templates/**/*.html", in that
    order. *)
Theorem exports_content (h : gmap loc cell) (k : nat) :
  ∃ t,
    observe (3 + k) load h = inr (Some t) ∧
    field "content" t
    = Some (TArr [ TStr "./templates/**/*.html";
                   TStr "./**/templates/**/*.html" ]).
Proof. exists tailwind_config. split; [apply load_observe|reflexivity]. Qed.

(** C4. In the exported object [theme.extend] is an object without
    properties and [plugins] is an array without elements. *)
Theorem exports_empty_containers (h : gmap loc cell) (k : nat) :
  ∃ t theme,
    observe (3 + k) load h = inr (Some t) ∧
    field "theme" t = Some theme ∧
    field "extend" theme = Some (TObj []) ∧
    field "plugins" t = Some (TArr []).
Proof.
  exists tailwind_config. eexists.
  split; [apply load_observe|]. split_and!; reflexivity.
Qed.

(** ** Loading *)

(** C8. Two loads yield structures that are equal by value: whatever the
    two stores they start from, and also when the second load follows the
    first in the same store, where the two results are then two objects,
    present together, and the same tree, [content], [theme] and [plugins]
    alike. *)
Theorem load_twice_value_equal (h1 h2 : gmap loc cell) (k : nat) :
  (∃ t, observe (3 + k) load h1 = inr (Some t) ∧
        observe (3 + k) load h2 = inr (Some t)) ∧
  (∃ v v' h' h'' t,
        load h1 = inr (v, h') ∧ load h' = inr (v', h'') ∧ v ≠ v' ∧
        deep_value (3 + k) h'' v = Some t ∧
        deep_value (3 + k) h'' v' = Some t).
Proof.
  split.
  - exists tailwind_config. split; apply load_observe.
  - destruct (load_spec h1) as (v & h' & Hrun & _ & _).
    destruct (load_spec h') as (v' & h'' & Hrun' & _ & Hv').
    pose proof (load_spec_repr _ _ _ Hrun) as Hv.
    exists v, v', h', h'', tailwind_config. split_and!; [done|done| | |].
    + intros <-.
      destruct (repr_obj_lookup _ _ _ Hv) as (l & -> & [c Hl]).
      destruct (repr_obj_lookup _ _ _ Hv') as (l' & [= <-] & Hl').
      apply lookup_difference_is_Some in Hl' as [_ Hnew]. congruence.
    + apply (repr_deep_value _ _ tailwind_config).
      by eapply load_preserves.
    + apply (repr_deep_value _ _ tailwind_config). by eapply load_spec_repr.
Qed.

(** C9. Loading never raises: from every store the evaluation ends
    normally and hands back the configuration, so it ends in no error and
    in particular in no [ConfigurationError].  Nothing in it looks into a
    pattern: an array literal of strings evaluates to the array of those
    strings whatever the strings are. *)
Theorem load_never_raises (h : gmap loc cell) :
  (∃ v h', load h = inr (v, h') ∧
           deep_value 3 h' v = Some tailwind_config) ∧
  (∀ e, load h ≠ inl e) ∧
  (∀ (ps : list string) (h0 : gmap loc cell),
     ∃ v h', arr_lit (str <$> ps) h0 = inr (v, h') ∧
             repr h' v (TArr (TStr <$> ps))).
Proof.
  destruct (load_spec h) as (v & h' & Hrun & _ & _). split_and!.
  - exists v, h'. split; [done|].
    by apply (repr_deep_value h' v tailwind_config 0), (load_spec_repr h).
  - intros e He. by rewrite Hrun in He.
  - intros ps h0.
    destruct (builds_arr_lit (str <$> ps) (TStr <$> ps)) with (h := h0)
      as (w & h1 & Hw & _ & Hr).
    { apply Forall2_fmap, Forall_Forall2_diag, Forall_forall.
      intros s _. apply builds_str. }
    exists w, h1. split; [done|].
    eapply repr_weaken; [|exact Hr]. store_incl.
Qed.

(** ** What the assignment touches *)

Lemma find_put_prop_ne {A} k k' (a : A) ps :
  k ≠ k' → find_prop k (put_prop k' a ps) = find_prop k ps.
Proof.
  intros Hne. induction ps as [|[k1 a1] r IH]; simpl.
  - by rewrite decide_False.
  - destruct (decide (k' = k1)) as [->|Hne1]; simpl.
    + by rewrite !decide_False.
    + by rewrite IH.
Qed.

(** X1. The body has no effect on the store besides its one assignment:
    whatever the store and the module object, it ends normally and every
    object other than the module object is afterwards as it was before. *)
Theorem module_body_frame (h : gmap loc cell) (m : loc)
    (mps : list (string * value)) :
  h !! m = Some (CObj mps) →
  ∃ h', module_body (VRef m) h = inr (tt, h') ∧ delete m h ⊆ h'.
Proof.
  intros Hm. destruct (module_body_spec h m mps Hm) as (v & h' & ? & ? & _).
  by exists h'.
Qed.

Lemma module_body_frame_witness :
  let h : gmap loc cell :=
    <[2%positive := CArr [VStr "kept"]]>
      {[1%positive := CObj [("id", VStr ".")]]} in
  h !! 1%positive = Some (CObj [("id", VStr ".")]) ∧
  ∃ h', module_body (VRef 1%positive) h = inr (tt, h') ∧
        delete 1%positive h ⊆ h'.
Proof.
  intros h. split; [reflexivity|].
  apply (module_body_frame h 1%positive [("id", VStr ".")]). reflexivity.
Defined.

(** X2. The assignment writes [exports] and nothing else of the module
    object: afterwards [exports] holds a reference to a new object, one
    the store did not have, whose value is the configuration, and every
    other property of the module object reads as before. *)
Theorem module_body_assigns_exports_only (h : gmap loc cell) (m : loc)
    (mps : list (string * value)) :
  h !! m = Some (CObj mps) →
  ∃ h' mps' l,
    module_body (VRef m) h = inr (tt, h') ∧
    h' !! m = Some (CObj mps') ∧
    find_prop "exports" mps' = Some (VRef l) ∧
    h !! l = None ∧
    deep_value 3 h' (VRef l) = Some tailwind_config ∧
    ∀ k, k ≠ "exports" → find_prop k mps' = find_prop k mps.
Proof.
  intros Hm.
  destruct (module_body_spec h m mps Hm) as (v & h' & Hrun & _ & Hm' & Hv).
  destruct (repr_obj_lookup _ _ _ Hv) as (l & -> & Hl).
  apply lookup_difference_is_Some in Hl as [_ Hl].
  exists h', (put_prop "exports" (VRef l) mps), l. split_and!; try done.
  - apply find_put_prop.
  - apply (repr_deep_value h' (VRef l) tailwind_config 0).
    eapply repr_weaken; [|exact Hv]. by apply map_subseteq_difference_l.
  - intros k Hk. by apply find_put_prop_ne.
Qed.

Lemma module_body_assigns_exports_only_witness :
  let old : list (string * value) :=
    [("id", VStr "."); ("exports", VRef 2%positive); ("loaded", VStr "no")] in
  let h : gmap loc cell :=
    <[2%positive := CObj []]> {[1%positive := CObj old]} in
  h !! 1%positive = Some (CObj old) ∧
  ∃ h' mps' l,
    module_body (VRef 1%positive) h = inr (tt, h') ∧
    h' !! 1%positive = Some (CObj mps') ∧
    find_prop "exports" mps' = Some (VRef l) ∧
    h !! l = None ∧
    deep_value 3 h' (VRef l) = Some tailwind_config ∧
    ∀ k, k ≠ "exports" → find_prop k mps' = find_prop k old.
Proof.
  intros old h. split; [reflexivity|].
  apply (module_body_assigns_exports_only h 1%positive old). reflexivity.
Defined.

(** X3. A loaded configuration shares no object with what was in the
    store before the load: in every store that keeps the objects the load
    created, whatever has become of all the others, the loaded value is
    still the configuration. *)
Theorem load_isolated (h h' h'' : gmap loc cell) (v : value) (k : nat) :
  load h = inr (v, h') →
  h' ∖ h ⊆ h'' →
  deep_value (3 + k) h'' v = Some tailwind_config.
Proof.
  intros Hrun Hkept.
  destruct (load_spec h) as (v' & h1 & Hrun' & _ & Hv).
  rewrite Hrun in Hrun'. simplify_eq.
  apply (repr_deep_value h'' v' tailwind_config k). by eapply repr_weaken.
Qed.

Lemma load_isolated_witness :
  let h : gmap loc cell := {[1%positive := CArr [VStr "old"]]} in
  ∃ v h',
    load h = inr (v, h') ∧
    h' ∖ h ⊆ h' ∖ h ∧
    (h' ∖ h) !! 1%positive = None ∧
    deep_value 3 (h' ∖ h) v = Some tailwind_config.
Proof.
  intros h. eexists _, _. split; [vm_compute; reflexivity|].
  split; [reflexivity|]. split; [vm_compute; reflexivity|].
  eapply (load_isolated h _ _ _ 0); [vm_compute; reflexivity|reflexivity].
Defined.

(** ** The store a load leaves *)

Lemma alloc_run c h : ∃ l, h !! l = None ∧ alloc c h = inr (l, <[l:=c]> h).
Proof. exists (fresh (dom h)). split; [apply alloc_fresh|done]. Qed.

Lemma set_prop_run l k v ps ps' h :
  h !! l = Some (CObj ps) → put_prop k v ps = ps' →
  set_prop (VRef l) k v h = inr (tt, <[l := CObj ps']> h).
Proof. intros Hl <-. unfold set_prop. by rewrite Hl. Qed.

Lemma push_elem_run l v vs h :
  h !! l = Some (CArr vs) →
  push_elem l v h = inr (tt, <[l := CArr (vs ++ [v])]> h).
Proof. intros Hl. unfold push_elem. by rewrite Hl. Qed.

Lemma get_prop_run l k ps v h :
  h !! l = Some (CObj ps) → default VUndefined (find_prop k ps) = v →
  get_prop (VRef l) k h = inr (v, h).
Proof. intros Hl <-. unfold get_prop. by rewrite Hl. Qed.

(** Looks a location up in a store given as a pile of insertions. *)
Ltac store_lookup :=
  repeat (rewrite lookup_insert_ne by done); apply lookup_insert_eq.

(** Runs the next store operation of a computation, keeping for every new
    object that it differs from all the objects before it. *)
Ltac run_step :=
  unfold bind; cbn -[alloc set_prop push_elem get_prop];
  match goal with
  | |- context [alloc ?c ?h] =>
      let l := fresh "l" in
      let Hl := fresh "Hl" in
      let Hr := fresh "Hr" in
      destruct (alloc_run c h) as (l & Hl & Hr); rewrite Hr; clear Hr;
      repeat (apply lookup_insert_None in Hl as [Hl ?]); clear Hl
  | |- context [set_prop (VRef ?l) ?k ?v ?h] =>
      erewrite (set_prop_run l k v _ _ h);
        [|store_lookup|vm_compute; reflexivity]
  | |- context [push_elem ?l ?v ?h] =>
      erewrite (push_elem_run l v _ h) by store_lookup
  | |- context [get_prop (VRef ?l) ?k ?h] =>
      erewrite (get_prop_run l k _ _ h);
        [|store_lookup|vm_compute; reflexivity]
  end.

Lemma load_store_shape (h : gmap loc cell) :
  match load h with
  | inr (VRef c, h') =>
      ∃ a t x p,
        NoDup [c; a; t; x; p] ∧
        h' !! c = Some (CObj [ ("content", VRef a); ("theme", VRef t);
                               ("plugins", VRef p) ]) ∧
        h' !! a = Some (CArr [ VStr "./templates/**/*.html";
                               VStr "./**/templates/**/*.html" ]) ∧
        h' !! t = Some (CObj [ ("extend", VRef x) ]) ∧
        h' !! x = Some (CObj []) ∧
        h' !! p = Some (CArr [])
  | _ => False
  end.
Proof.
  unfold load, module_body, config_literal, obj_lit, arr_lit, bind, str, ret.
  repeat run_step.
  exists l2, l3, l4, l5. split_and!; [|store_lookup..].
  repeat (apply NoDup_cons_2;
          [rewrite ?not_elem_of_cons; split_and?; done || apply not_elem_of_nil|]).
  apply NoDup_nil_2.
Qed.

(** X4. The exported object and its four containers, [content], [theme],
    [theme.extend] and [plugins], are five different objects of the
    store, each holding what the literal gives it: no two fields share an
    array or an object. *)
Theorem load_objects_distinct (h : gmap loc cell) :
  ∃ c a t x p h',
    load h = inr (VRef c, h') ∧
    NoDup [c; a; t; x; p] ∧
    h' !! c = Some (CObj [ ("content", VRef a); ("theme", VRef t);
                           ("plugins", VRef p) ]) ∧
    h' !! a = Some (CArr [ VStr "./templates/**/*.html";
                           VStr "./**/templates/**/*.html" ]) ∧
    h' !! t = Some (CObj [ ("extend", VRef x) ]) ∧
    h' !! x = Some (CObj []) ∧
    h' !! p = Some (CArr []).
Proof.
  pose proof (load_store_shape h) as Hshape.
  destruct (load h) as [|[[| |c] h']]; try done.
  destruct Hshape as (a & t & x & p & ?). by exists c, a, t, x, p, h'.
Qed.
